(** * Static allocation macros for CMSIS-RTOS v2

    A shallow embedding of [include/cmsis_os2_static_alloc.h].  The header
    consists of six function-like macros.  Every macro expands to a short
    sequence of file-scope declarations: a control block, for some kinds a
    backing array, and a constant attributes structure whose initializer
    refers to the former two.

    The embedding has three layers:
    - the preprocessor operators used by the macros ([##] and [#]);
    - the macros themselves, as functions producing declarations;
    - the elaboration of declarations into static objects, evaluating the
      constant expressions ([sizeof], [&x], array decay, casts) of the
      initializers. *)

From Stdlib Require Import ZArith List String Ascii Bool Lia.
Import ListNotations.

Local Open Scope string_scope.
Local Open Scope Z_scope.

(** ** Option monad for elaboration failures *)

Definition obind {A B : Type} (m : option A) (k : A -> option B) : option B :=
  match m with
  | Some a => k a
  | None => None
  end.

Notation "x <- m ;; k" := (obind m (fun x => k))
  (at level 61, m at next level, right associativity).

Definition oguard (b : bool) : option unit :=
  if b then Some tt else None.

(** ** Identifiers and the preprocessor operators *)

Definition ident := string.

Definition is_digit (c : ascii) : bool :=
  let n := nat_of_ascii c in (48 <=? n)%nat && (n <=? 57)%nat.

(** Letters and the underscore. *)
Definition is_nondigit (c : ascii) : bool :=
  let n := nat_of_ascii c in
  ((65 <=? n)%nat && (n <=? 90)%nat)
  || ((97 <=? n)%nat && (n <=? 122)%nat)
  || (n =? 95)%nat.

Definition is_ident_char (c : ascii) : bool := is_nondigit c || is_digit c.

Fixpoint all_chars (p : ascii -> bool) (s : string) : bool :=
  match s with
  | EmptyString => true
  | String c r => p c && all_chars p r
  end.

(** A C identifier of the basic character set: a nondigit followed by
    nondigits and digits (extended characters are not modelled). *)
Definition is_identifier (s : string) : bool :=
  match s with
  | EmptyString => false
  | String c r => is_nondigit c && all_chars is_ident_char r
  end.

(** [name##suffix]: token pasting concatenates the two spellings. *)
Definition paste (name suffix : string) : ident := name ++ suffix.

(** [#name]: the string literal holding the spelling of the argument. *)
Definition stringify (name : string) : string := name.

Infix "##" := paste (at level 25, left associativity).

(** ** Syntax of the code the macros expand to *)

(** Constant expressions occurring in the macro bodies. *)
Inductive expr : Type :=
| Econst_int (z : Z)                   (* 0, and integer macro arguments *)
| Estring (s : string)                 (* #name *)
| Emacro (m : string)                  (* osMutexPrioInherit *)
| Evar (x : ident)                     (* name##_stack *)
| Eaddrof (x : ident)                  (* &name##_cb *)
| Esizeof (x : ident)                  (* sizeof(name##_cb) *)
| Esizeof_type (t : string)            (* sizeof(type) *)
| Emul (a b : expr)                    (* (queue_size) * sizeof(type) *)
| Ecast (t : string) (e : expr).       (* (osPriority_t)(priority_level) *)

(** A file-scope declaration [static [const] spec name [[dim]] [= { init }];]. *)
Record declaration : Type := mkdecl {
  decl_const : bool;
  decl_spec : string;
  decl_name : ident;
  decl_dim : option expr;
  decl_init : option (list expr)
}.

Definition static_object (spec : string) (x : ident) : declaration :=
  mkdecl false spec x None None.

Definition static_array (spec : string) (x : ident) (dim : expr) : declaration :=
  mkdecl false spec x (Some dim) None.

Definition static_const (spec : string) (x : ident) (init : list expr) : declaration :=
  mkdecl true spec x None (Some init).

(** ** The macros

    Integer macro arguments ([stack_words], [priority_level], [queue_size],
    [pool_size]) are integer constant expressions; they are represented by
    their value.  The [type] argument of the queue and pool macros is a type
    name. *)

Definition OS_THREAD_STATIC (name : string) (stack_words priority_level : Z)
  : list declaration :=
  [ static_array "StackType_t" (name ## "_stack") (Econst_int stack_words);
    static_object "StaticTask_t" (name ## "_cb");
    static_const "osThreadAttr_t" (name ## "_attributes")
      [ Estring (stringify name);
        Econst_int 0;
        Eaddrof (name ## "_cb");
        Esizeof (name ## "_cb");
        Evar (name ## "_stack");
        Esizeof (name ## "_stack");
        Ecast "osPriority_t" (Econst_int priority_level);
        Econst_int 0;
        Econst_int 0 ] ].

Definition OS_MESSAGE_QUEUE_STATIC (name : string) (queue_size : Z) (type : string)
  : list declaration :=
  [ static_object "StaticQueue_t" (name ## "_cb");
    static_array "uint8_t" (name ## "_queue_mem")
      (Emul (Econst_int queue_size) (Esizeof_type type));
    static_const "osMessageQueueAttr_t" (name ## "_attributes")
      [ Estring (stringify name);
        Econst_int 0;
        Eaddrof (name ## "_cb");
        Esizeof (name ## "_cb");
        Evar (name ## "_queue_mem");
        Esizeof (name ## "_queue_mem") ] ].

Definition OS_MUTEX_STATIC (name : string) : list declaration :=
  [ static_object "StaticSemaphore_t" (name ## "_cb");
    static_const "osMutexAttr_t" (name ## "_attributes")
      [ Estring (stringify name);
        Emacro "osMutexPrioInherit";
        Eaddrof (name ## "_cb");
        Esizeof (name ## "_cb") ] ].

Definition OS_SEMAPHORE_STATIC (name : string) : list declaration :=
  [ static_object "StaticSemaphore_t" (name ## "_cb");
    static_const "osSemaphoreAttr_t" (name ## "_attributes")
      [ Estring (stringify name);
        Econst_int 0;
        Eaddrof (name ## "_cb");
        Esizeof (name ## "_cb") ] ].

Definition OS_TIMER_STATIC (name : string) : list declaration :=
  [ static_object "StaticTimer_t" (name ## "_cb");
    static_const "osTimerAttr_t" (name ## "_attributes")
      [ Estring (stringify name);
        Econst_int 0;
        Eaddrof (name ## "_cb");
        Esizeof (name ## "_cb") ] ].

Definition OS_MEMORY_POOL_STATIC (name : string) (pool_size : Z) (type : string)
  : list declaration :=
  [ static_object "StaticMemoryPool_t" (name ## "_cb");
    static_array "uint8_t" (name ## "_mem")
      (Emul (Econst_int pool_size) (Esizeof_type type));
    static_const "osMemoryPoolAttr_t" (name ## "_attributes")
      [ Estring (stringify name);
        Econst_int 0;
        Eaddrof (name ## "_cb");
        Esizeof (name ## "_cb");
        Evar (name ## "_mem");
        Esizeof (name ## "_mem") ] ].

(** The six resource kinds and one macro invocation. *)
Inductive kind : Type :=
| Thread | MessageQueue | Mutex | Semaphore | Timer | MemoryPool.

Inductive invocation : Type :=
| Ithread (name : string) (stack_words priority_level : Z)
| Imessage_queue (name : string) (queue_size : Z) (type : string)
| Imutex (name : string)
| Isemaphore (name : string)
| Itimer (name : string)
| Imemory_pool (name : string) (pool_size : Z) (type : string).

Definition kind_of (i : invocation) : kind :=
  match i with
  | Ithread _ _ _ => Thread
  | Imessage_queue _ _ _ => MessageQueue
  | Imutex _ => Mutex
  | Isemaphore _ => Semaphore
  | Itimer _ => Timer
  | Imemory_pool _ _ _ => MemoryPool
  end.

Definition name_of (i : invocation) : string :=
  match i with
  | Ithread n _ _ | Imessage_queue n _ _ | Imutex n
  | Isemaphore n | Itimer n | Imemory_pool n _ _ => n
  end.

Definition expand (i : invocation) : list declaration :=
  match i with
  | Ithread n w p => OS_THREAD_STATIC n w p
  | Imessage_queue n c t => OS_MESSAGE_QUEUE_STATIC n c t
  | Imutex n => OS_MUTEX_STATIC n
  | Isemaphore n => OS_SEMAPHORE_STATIC n
  | Itimer n => OS_TIMER_STATIC n
  | Imemory_pool n c t => OS_MEMORY_POOL_STATIC n c t
  end.

(** The identifiers an invocation declares, in declaration order. *)
Definition declared (i : invocation) : list ident :=
  map decl_name (expand i).

(** ** Targets

    The header depends on declarations of [cmsis_os2.h] and of the RTOS port
    that are not part of it: the sizes of the control-block and attribute
    types, the width of [size_t], the representation of the [osPriority_t]
    enumeration and the value of [osMutexPrioInherit].  They are parameters
    of the elaboration. *)

Record target : Type := mktarget {
  size_t_bits : Z;
  sizeof_typedef : string -> Z;
  osPriority_t_bits : Z;
  osMutexPrioInherit : Z
}.

(** [uint8_t] has exactly eight bits and no padding, so its size is one. *)
Definition sizeof_name (T : target) (n : string) : Z :=
  if String.eqb n "uint8_t" then 1 else sizeof_typedef T n.

Definition size_max (T : target) : Z := 2 ^ size_t_bits T - 1.

(** Conversion to [size_t] (unsigned wrap-around). *)
Definition to_size_t (T : target) (z : Z) : Z := z mod 2 ^ size_t_bits T.

(** Conversion to a signed integer type of the given width. *)
Definition to_signed (bits z : Z) : Z :=
  (z + 2 ^ (bits - 1)) mod 2 ^ bits - 2 ^ (bits - 1).

(** ** Static objects *)

Inductive ctype : Type :=
| Tnamed (n : string)
| Tarray (elt : string) (len : Z).

Definition sizeof (T : target) (t : ctype) : Z :=
  match t with
  | Tnamed n => sizeof_name T n
  | Tarray elt len => len * sizeof_name T elt
  end.

(** Values of constant expressions.  [Vptr x] is the address of the first
    byte of the static object [x]. *)
Inductive value : Type :=
| Vint (z : Z)
| Vstr (s : string)
| Vptr (x : ident).

Record object : Type := mkobject {
  obj_type : ctype;
  obj_const : bool;
  obj_size : Z;
  obj_init : option (list value)
}.

(** The objects of a translation unit, in declaration order. *)
Definition env := list (ident * object).

Fixpoint lookup (E : env) (x : ident) : option object :=
  match E with
  | [] => None
  | (y, o) :: E' => if String.eqb x y then Some o else lookup E' x
  end.

(** ** Constant expressions *)

Fixpoint eval (T : target) (E : env) (e : expr) : option value :=
  match e with
  | Econst_int z => Some (Vint z)
  | Estring s => Some (Vstr s)
  | Emacro m =>
      if String.eqb m "osMutexPrioInherit" then Some (Vint (osMutexPrioInherit T))
      else None
  | Evar x =>
      (* only an array may be named in an address constant: it decays to a
         pointer to its first element *)
      o <- lookup E x ;;
      match obj_type o with
      | Tarray _ _ => Some (Vptr x)
      | Tnamed _ => None
      end
  | Eaddrof x =>
      _ <- lookup E x ;; Some (Vptr x)
  | Esizeof x =>
      o <- lookup E x ;; Some (Vint (obj_size o))
  | Esizeof_type t => Some (Vint (sizeof_name T t))
  | Emul a b =>
      (* one operand is a [sizeof]; the count is taken to have a type no
         wider than [size_t], so the product is computed in [size_t] *)
      va <- eval T E a ;;
      vb <- eval T E b ;;
      match va, vb with
      | Vint x, Vint y => Some (Vint (to_size_t T (x * y)))
      | _, _ => None
      end
  | Ecast t e' =>
      v <- eval T E e' ;;
      match v with
      | Vint z =>
          if String.eqb t "osPriority_t" then Some (Vint (to_signed (osPriority_t_bits T) z))
          else None
      | _ => None
      end
  end.

Fixpoint eval_list (T : target) (E : env) (es : list expr) : option (list value) :=
  match es with
  | [] => Some []
  | e :: es' =>
      v <- eval T E e ;;
      vs <- eval_list T E es' ;;
      Some (v :: vs)
  end.

(** ** Elaboration of declarations *)

(** The declared type; an array dimension must be an integer constant
    greater than zero. *)
Definition elab_type (T : target) (E : env) (d : declaration) : option ctype :=
  match decl_dim d with
  | None => Some (Tnamed (decl_spec d))
  | Some dim =>
      v <- eval T E dim ;;
      match v with
      | Vint n => if 0 <? n then Some (Tarray (decl_spec d) n) else None
      | _ => None
      end
  end.

Definition elab_init (T : target) (E : env) (d : declaration)
  : option (option (list value)) :=
  match decl_init d with
  | None => Some None
  | Some es => vs <- eval_list T E es ;; Some (Some vs)
  end.

(** A declaration is accepted when its name is an identifier that is not yet
    declared, its type is complete with a size representable in [size_t],
    and its initializer is constant.  A second declaration of a name is
    rejected, as in C++ and at block scope. *)
Definition declare (T : target) (E : env) (d : declaration) : option env :=
  _ <- oguard (is_identifier (decl_name d)) ;;
  match lookup E (decl_name d) with
  | Some _ => None
  | None =>
      ty <- elab_type T E d ;;
      _ <- oguard ((0 <? sizeof T ty) && (sizeof T ty <=? size_max T)) ;;
      init <- elab_init T E d ;;
      Some (E ++ [(decl_name d, mkobject ty (decl_const d) (sizeof T ty) init)])%list
  end.

Fixpoint elaborate (T : target) (E : env) (ds : list declaration) : option env :=
  match ds with
  | [] => Some E
  | d :: ds' => E' <- declare T E d ;; elaborate T E' ds'
  end.

(** The objects generated by one macro invocation. *)
Definition generate (T : target) (i : invocation) : option env :=
  elaborate T [] (expand i).

(** ** The three parts of a generated set *)

Definition control_block_types : list string :=
  [ "StaticTask_t"; "StaticQueue_t"; "StaticSemaphore_t";
    "StaticTimer_t"; "StaticMemoryPool_t" ].

Definition attribute_types : list string :=
  [ "osThreadAttr_t"; "osMessageQueueAttr_t"; "osMutexAttr_t";
    "osSemaphoreAttr_t"; "osTimerAttr_t"; "osMemoryPoolAttr_t" ].

Definition mem (n : string) (l : list string) : bool := existsb (String.eqb n) l.

Definition is_control_block (o : object) : bool :=
  match obj_type o with
  | Tnamed n => mem n control_block_types
  | Tarray _ _ => false
  end.

Definition is_storage (o : object) : bool :=
  match obj_type o with
  | Tarray _ _ => true
  | Tnamed _ => false
  end.

Definition is_attributes (o : object) : bool :=
  match obj_type o with
  | Tnamed n => mem n attribute_types
  | Tarray _ _ => false
  end.

Definition select (p : object -> bool) (E : env) : env :=
  filter (fun xo => p (snd xo)) E.

Definition control_blocks : env -> env := select is_control_block.
Definition storage_regions : env -> env := select is_storage.
Definition attribute_records : env -> env := select is_attributes.

(** The control-block type each kind uses. *)
Definition control_block_type (k : kind) : string :=
  match k with
  | Thread => "StaticTask_t"
  | MessageQueue => "StaticQueue_t"
  | Mutex | Semaphore => "StaticSemaphore_t"
  | Timer => "StaticTimer_t"
  | MemoryPool => "StaticMemoryPool_t"
  end.

Definition attribute_type (k : kind) : string :=
  match k with
  | Thread => "osThreadAttr_t"
  | MessageQueue => "osMessageQueueAttr_t"
  | Mutex => "osMutexAttr_t"
  | Semaphore => "osSemaphoreAttr_t"
  | Timer => "osTimerAttr_t"
  | MemoryPool => "osMemoryPoolAttr_t"
  end.

(** A complete object type: its size is positive and representable in
    [size_t]. *)
Definition type_ok (T : target) (n : string) : Prop :=
  0 < sizeof_name T n <= size_max T.

(** A target is usable for a kind when the control-block type and the
    attributes type of the kind are complete. *)
Definition target_ok (T : target) (k : kind) : Prop :=
  type_ok T (control_block_type k) /\ type_ok T (attribute_type k).

(** Arguments for which the compiler accepts the expansion: the pasted
    names are identifiers, the array dimension is positive and the array
    fits in [size_t].  The dimension of a queue or pool array is the
    [size_t] product the macro writes. *)
Definition valid (T : target) (i : invocation) : Prop :=
  forallb is_identifier (declared i) = true /\
  match i with
  | Ithread _ w _ =>
      0 < w /\ 0 < w * sizeof_name T "StackType_t" <= size_max T
  | Imessage_queue _ c t | Imemory_pool _ c t =>
      0 < to_size_t T (c * sizeof_name T t)
  | Imutex _ | Isemaphore _ | Itimer _ => True
  end.

(** ** The attributes structures

    The attribute structure types are declared by [cmsis_os2.h].  The macros
    initialize them positionally, so the meaning of each initializer is
    fixed by the member order of the structure. *)

Inductive role : Type :=
| Rname | Rreserved | Rflag
| Rcb_ref | Rcb_size
| Rstack_ref | Rstack_size
| Rstorage_ref | Rstorage_size
| Rpriority.

Definition role_tag (r : role) : nat :=
  match r with
  | Rname => 0 | Rreserved => 1 | Rflag => 2
  | Rcb_ref => 3 | Rcb_size => 4
  | Rstack_ref => 5 | Rstack_size => 6
  | Rstorage_ref => 7 | Rstorage_size => 8
  | Rpriority => 9
  end%nat.

Definition role_eqb (a b : role) : bool := Nat.eqb (role_tag a) (role_tag b).

(** Modelled from the spec: the member order of the external attribute
    structures ([osThreadAttr_t] and the like, declared in [cmsis_os2.h],
    which is not part of this repository), as the interface section lists
    it for each kind. *)
Definition layout (k : kind) : list role :=
  match k with
  | Thread =>
      [ Rname; Rreserved; Rcb_ref; Rcb_size; Rstack_ref; Rstack_size;
        Rpriority; Rreserved; Rreserved ]
  | MessageQueue | MemoryPool =>
      [ Rname; Rreserved; Rcb_ref; Rcb_size; Rstorage_ref; Rstorage_size ]
  | Mutex | Semaphore | Timer =>
      [ Rname; Rflag; Rcb_ref; Rcb_size ]
  end.

Definition kind_of_attribute_type (n : string) : option kind :=
  if String.eqb n "osThreadAttr_t" then Some Thread
  else if String.eqb n "osMessageQueueAttr_t" then Some MessageQueue
  else if String.eqb n "osMutexAttr_t" then Some Mutex
  else if String.eqb n "osSemaphoreAttr_t" then Some Semaphore
  else if String.eqb n "osTimerAttr_t" then Some Timer
  else if String.eqb n "osMemoryPoolAttr_t" then Some MemoryPool
  else None.

(** Positional initialization of a structure: initializers go to the members
    in declaration order, members without an initializer are zero, and an
    excess initializer is an error. *)
Fixpoint init_struct (members : list role) (vs : list value)
  : option (list (role * value)) :=
  match members, vs with
  | [], [] => Some []
  | [], _ :: _ => None
  | m :: members', [] =>
      rest <- init_struct members' [] ;; Some ((m, Vint 0) :: rest)
  | m :: members', v :: vs' =>
      rest <- init_struct members' vs' ;; Some ((m, v) :: rest)
  end.

Definition record := list (role * value).

(** The members of an attributes object, by role. *)
Definition members_of (o : object) : option record :=
  match obj_type o with
  | Tnamed n =>
      k <- kind_of_attribute_type n ;;
      vs <- obj_init o ;;
      init_struct (layout k) vs
  | Tarray _ _ => None
  end.

(** The values of all members with a given role, in member order. *)
Definition field (r : role) (rec : record) : list value :=
  map snd (filter (fun mv => role_eqb (fst mv) r) rec).

(** The member following the name (the attribute bits of the RTOS
    structures). *)
Definition second_member (rec : record) : option (role * value) :=
  nth_error rec 1.

(** A generated set: the backing storage (when the kind has one), the
    control block and the attributes record. *)
Record descriptor : Type := mkdescriptor {
  d_storage : option (ident * object);
  d_control_block : ident * object;
  d_attributes : ident * object;
  d_members : record
}.

Definition descriptor_of (E : env) : option descriptor :=
  match control_blocks E, attribute_records E with
  | [cb], [a] =>
      st <- match storage_regions E with
            | [] => Some None
            | [s] => Some (Some s)
            | _ => None
            end ;;
      ms <- members_of (snd a) ;;
      Some (mkdescriptor st cb a ms)
  | _, _ => None
  end.

Definition describe (T : target) (i : invocation) : option descriptor :=
  E <- generate T i ;; descriptor_of E.

(** The number of initializers the attributes record was given. *)
Definition initializer_count (d : descriptor) : nat :=
  match obj_init (snd (d_attributes d)) with
  | Some vs => List.length vs
  | None => 0
  end.

(** Backing-storage members of a record: the stack of a thread, the item
    memory of a queue or pool. *)
Definition storage_refs (rec : record) : list value :=
  (field Rstack_ref rec ++ field Rstorage_ref rec)%list.

Definition storage_sizes (rec : record) : list value :=
  (field Rstack_size rec ++ field Rstorage_size rec)%list.

(** Values of [osPriority_t]. *)
Definition representable_priority (T : target) (p : Z) : Prop :=
  0 < osPriority_t_bits T /\
  - 2 ^ (osPriority_t_bits T - 1) <= p < 2 ^ (osPriority_t_bits T - 1).

(** The last character of a string ([d] when it is empty). *)
Fixpoint last_char (s : string) (d : ascii) : ascii :=
  match s with
  | EmptyString => d
  | String c r => last_char r c
  end.

(** Two invocations whose storage identifiers coincide although their names
    differ: a message queue [n] and a memory pool [n_queue]. *)
Definition queue_pool_clash (i j : invocation) : Prop :=
  kind_of i = MessageQueue /\ kind_of j = MemoryPool /\
  name_of j = name_of i ++ "_queue".

(** ** An example target

    A 32-bit port: [size_t] and [osPriority_t] are 32 bits wide, a stack
    word has four bytes and [osMutexPrioInherit] is 2.  The sizes of the
    control-block and attributes types are sample values. *)
Definition port32_sizes (n : string) : Z :=
  if String.eqb n "StackType_t" then 4
  else if String.eqb n "uint32_t" then 4
  else if String.eqb n "StaticTask_t" then 92
  else if String.eqb n "StaticQueue_t" then 80
  else if String.eqb n "StaticSemaphore_t" then 80
  else if String.eqb n "StaticTimer_t" then 44
  else if String.eqb n "StaticMemoryPool_t" then 104
  else if String.eqb n "osThreadAttr_t" then 36
  else if String.eqb n "osMessageQueueAttr_t" then 24
  else if String.eqb n "osMemoryPoolAttr_t" then 24
  else if String.eqb n "osMutexAttr_t" then 16
  else if String.eqb n "osSemaphoreAttr_t" then 16
  else if String.eqb n "osTimerAttr_t" then 16
  else 0.

Definition port32 : target := mktarget 32 port32_sizes 32 2.

(** The attributes record refers to the generated backing storage: its
    storage reference is the address of the region and its storage size is
    the size of the region. *)
Definition storage_bound (d : descriptor) : Prop :=
  exists st,
    d_storage d = Some st /\
    storage_refs (d_members d) = [Vptr (fst st)] /\
    storage_sizes (d_members d) = [Vint (obj_size (snd st))].

(** Neither a backing storage region nor storage members. *)
Definition no_storage (d : descriptor) : Prop :=
  d_storage d = None /\
  storage_refs (d_members d) = [] /\
  storage_sizes (d_members d) = [].

(** The value the macro of each kind writes after the name. *)
Definition attr_bits (T : target) (k : kind) : Z :=
  match k with
  | Mutex => osMutexPrioInherit T
  | _ => 0
  end.

(** Identifiers an expression and a declaration refer to. *)
Fixpoint expr_idents (e : expr) : list ident :=
  match e with
  | Evar x | Eaddrof x | Esizeof x => [x]
  | Emul a b => (expr_idents a ++ expr_idents b)%list
  | Ecast _ e' => expr_idents e'
  | Econst_int _ | Estring _ | Emacro _ | Esizeof_type _ => []
  end.

Definition decl_idents (d : declaration) : list ident :=
  (decl_name d
   :: match decl_dim d with
      | Some e => expr_idents e
      | None => []
      end
   ++ match decl_init d with
      | Some es => flat_map expr_idents es
      | None => []
      end)%list.

(** An identifier not declared in a translation unit. *)
Definition fresh_in (E : env) (x : ident) : Prop := lookup E x = None.

(** Identifiers declared by both of two invocations. *)
Definition shared (i j : invocation) : list ident :=
  filter (fun x => mem x (declared j)) (declared i).

Definition is_kind (k : kind) (i : invocation) : bool :=
  match k, kind_of i with
  | Thread, Thread | MessageQueue, MessageQueue | Mutex, Mutex
  | Semaphore, Semaphore | Timer, Timer | MemoryPool, MemoryPool => true
  | _, _ => false
  end.

Definition queue_pool_clashb (i j : invocation) : bool :=
  is_kind MessageQueue i && is_kind MemoryPool j
  && String.eqb (name_of j) (name_of i ++ "_queue").

(** What the example target generates for a thread [worker] with 256 stack
    words and priority 24, for a queue [evt_q] of eight [uint32_t], and for
    a mutex [lock]. *)
Definition worker_descriptor : descriptor :=
  mkdescriptor
    (Some ("worker_stack", mkobject (Tarray "StackType_t" 256) false 1024 None))
    ("worker_cb", mkobject (Tnamed "StaticTask_t") false 92 None)
    ("worker_attributes",
     mkobject (Tnamed "osThreadAttr_t") true 36
       (Some [ Vstr "worker"; Vint 0; Vptr "worker_cb"; Vint 92;
               Vptr "worker_stack"; Vint 1024; Vint 24; Vint 0; Vint 0 ]))
    [ (Rname, Vstr "worker"); (Rreserved, Vint 0);
      (Rcb_ref, Vptr "worker_cb"); (Rcb_size, Vint 92);
      (Rstack_ref, Vptr "worker_stack"); (Rstack_size, Vint 1024);
      (Rpriority, Vint 24); (Rreserved, Vint 0); (Rreserved, Vint 0) ].

Definition evt_q_descriptor : descriptor :=
  mkdescriptor
    (Some ("evt_q_queue_mem", mkobject (Tarray "uint8_t" 32) false 32 None))
    ("evt_q_cb", mkobject (Tnamed "StaticQueue_t") false 80 None)
    ("evt_q_attributes",
     mkobject (Tnamed "osMessageQueueAttr_t") true 24
       (Some [ Vstr "evt_q"; Vint 0; Vptr "evt_q_cb"; Vint 80;
               Vptr "evt_q_queue_mem"; Vint 32 ]))
    [ (Rname, Vstr "evt_q"); (Rreserved, Vint 0);
      (Rcb_ref, Vptr "evt_q_cb"); (Rcb_size, Vint 80);
      (Rstorage_ref, Vptr "evt_q_queue_mem"); (Rstorage_size, Vint 32) ].

Definition lock_descriptor : descriptor :=
  mkdescriptor None
    ("lock_cb", mkobject (Tnamed "StaticSemaphore_t") false 80 None)
    ("lock_attributes",
     mkobject (Tnamed "osMutexAttr_t") true 16
       (Some [ Vstr "lock"; Vint 2; Vptr "lock_cb"; Vint 80 ]))
    [ (Rname, Vstr "lock"); (Rflag, Vint 2);
      (Rcb_ref, Vptr "lock_cb"); (Rcb_size, Vint 80) ].

(** The objects a record points to, in member order. *)
Definition pointers (rec : record) : list ident :=
  flat_map (fun mv => match snd mv with
                      | Vptr x => [x]
                      | Vint _ | Vstr _ => []
                      end) rec.

(** ** Inclusion of the header

    The header is protected by [#pragma once] and by the guard macro
    [CMSISV2_RTOS_STATIC_ALLOC_H_]; when [CMSIS_OS2_H_] is not defined it
    emits a warning and goes on to define its six macros. *)

Record preprocessor : Type := mkpreprocessor {
  pp_macros : list string;
  pp_once : bool;
  pp_warnings : list string
}.

Definition defined (s : preprocessor) (m : string) : bool := mem m (pp_macros s).

Definition define (m : string) (s : preprocessor) : preprocessor :=
  if defined s m then s
  else mkpreprocessor (m :: pp_macros s) (pp_once s) (pp_warnings s).

Definition warning (msg : string) (s : preprocessor) : preprocessor :=
  mkpreprocessor (pp_macros s) (pp_once s) (pp_warnings s ++ [msg])%list.

Definition pragma_once (s : preprocessor) : preprocessor :=
  mkpreprocessor (pp_macros s) true (pp_warnings s).

Definition header_macros : list string :=
  [ "OS_THREAD_STATIC"; "OS_MESSAGE_QUEUE_STATIC"; "OS_MUTEX_STATIC";
    "OS_SEMAPHORE_STATIC"; "OS_TIMER_STATIC"; "OS_MEMORY_POOL_STATIC" ].

Definition include_header (s : preprocessor) : preprocessor :=
  if pp_once s then s
  else
    let s1 := pragma_once s in
    if defined s1 "CMSISV2_RTOS_STATIC_ALLOC_H_" then s1
    else
      let s2 := define "CMSISV2_RTOS_STATIC_ALLOC_H_" s1 in
      let s3 :=
        if defined s2 "CMSIS_OS2_H_" then s2
        else warning "cmsis_os2.h must be included before this file" s2 in
      fold_left (fun acc m => define m acc) header_macros s3.

Arguments paste : simpl never.
Arguments stringify : simpl never.

(** * Properties *)

(** ** Strings and pasted identifiers *)

Lemma all_chars_app (p : ascii -> bool) (a b : string) :
  all_chars p (a ++ b) = all_chars p a && all_chars p b.
Proof.
  induction a as [|c a IH]; simpl.
  - reflexivity.
  - rewrite IH. apply andb_assoc.
Qed.

Lemma is_identifier_paste (n s : string) :
  is_identifier n = true ->
  all_chars is_ident_char s = true ->
  is_identifier (n ## s) = true.
Proof.
  unfold paste. destruct n as [|c n]; simpl; [discriminate|].
  intros Hn Hs. apply andb_true_iff in Hn as [Hc Hr].
  rewrite Hc, all_chars_app, Hr, Hs. reflexivity.
Qed.

Lemma append_cancel_l (n a b : string) : n ++ a = n ++ b -> a = b.
Proof.
  induction n as [|c n IH]; simpl; intros H.
  - exact H.
  - injection H as H. auto.
Qed.

Lemma length_append (a b : string) :
  String.length (a ++ b) = (String.length a + String.length b)%nat.
Proof.
  induction a as [|c a IH]; simpl; congruence.
Qed.

Lemma append_same_length (a b s t : string) :
  String.length a = String.length b -> a ++ s = b ++ t -> a = b /\ s = t.
Proof.
  revert b. induction a as [|c a IH]; intros [|c' b]; simpl; try discriminate.
  - auto.
  - intros Hl H. injection Hl as Hl. injection H as Hc H.
    destruct (IH b Hl H) as [-> ->]. subst. auto.
Qed.

Lemma append_cancel_r (a b s : string) : a ++ s = b ++ s -> a = b.
Proof.
  intros H. apply (append_same_length a b s s); [|exact H].
  apply (f_equal String.length) in H. rewrite !length_append in H. lia.
Qed.

Lemma append_assoc (a b c : string) : (a ++ b) ++ c = a ++ (b ++ c).
Proof.
  induction a as [|x a IH]; simpl; congruence.
Qed.

Lemma last_char_append (a : string) (c : ascii) (r : string) (d : ascii) :
  last_char (a ++ String c r) d = last_char r c.
Proof.
  revert d. induction a as [|x a IH]; intros d; simpl; auto.
Qed.

Lemma paste_eqb_same_name (n s t : string) :
  s <> t -> String.eqb (n ## s) (n ## t) = false.
Proof.
  intros Hst. apply String.eqb_neq. unfold paste. intros H.
  apply Hst. eapply append_cancel_l. exact H.
Qed.

Lemma paste_eqb_same_suffix (a b s : string) :
  a <> b -> String.eqb (a ## s) (b ## s) = false.
Proof.
  intros Hab. apply String.eqb_neq. unfold paste. intros H.
  apply Hab. eapply append_cancel_r. exact H.
Qed.

Lemma paste_eqb_last (a b : string) (c c' : ascii) (r r' : string) :
  last_char r c <> last_char r' c' ->
  String.eqb (a ## String c r) (b ## String c' r') = false.
Proof.
  intros Hl. apply String.eqb_neq. unfold paste. intros H.
  apply Hl. rewrite <- (last_char_append a c r c), <- (last_char_append b c' r' c).
  rewrite H. reflexivity.
Qed.

Lemma paste_eqb_queue_mem (a b : string) :
  String.eqb (a ## "_queue_mem") (b ## "_mem") = String.eqb b (a ++ "_queue").
Proof.
  unfold paste. destruct (String.eqb_spec b (a ++ "_queue")) as [->|Hne].
  - rewrite append_assoc. apply String.eqb_refl.
  - apply String.eqb_neq. intros H. apply Hne.
    change "_queue_mem" with ("_queue" ++ "_mem") in H.
    rewrite <- append_assoc in H. apply append_cancel_r in H. congruence.
Qed.

Lemma paste_eqb_mem_queue (a b : string) :
  String.eqb (a ## "_mem") (b ## "_queue_mem") = String.eqb a (b ++ "_queue").
Proof.
  rewrite String.eqb_sym. apply paste_eqb_queue_mem.
Qed.

(** ** Elaboration of the three declaration forms *)

Lemma size_check (T : target) (z : Z) :
  0 < z <= size_max T -> (0 <? z) && (z <=? size_max T) = true.
Proof.
  intros [H1 H2]. apply andb_true_iff. split.
  - apply Z.ltb_lt. exact H1.
  - apply Z.leb_le. exact H2.
Qed.

Section Declarations.

Variable T : target.
Variable E : env.
Variable x : ident.
Hypothesis x_ident : is_identifier x = true.
Hypothesis x_fresh : lookup E x = None.

Lemma declare_object (spec : string) :
  type_ok T spec ->
  declare T E (static_object spec x)
  = Some (E ++ [(x, mkobject (Tnamed spec) false (sizeof_name T spec) None)])%list.
Proof.
  intros Hok. unfold declare, static_object; simpl.
  rewrite x_ident, x_fresh; simpl.
  rewrite (size_check T _ Hok). reflexivity.
Qed.

Lemma declare_array (spec : string) (dim : expr) (n : Z) :
  eval T E dim = Some (Vint n) ->
  0 < n ->
  0 < n * sizeof_name T spec <= size_max T ->
  declare T E (static_array spec x dim)
  = Some (E ++ [(x, mkobject (Tarray spec n) false (n * sizeof_name T spec) None)])%list.
Proof.
  intros Hdim Hn Hsz. unfold declare, static_array, elab_type; simpl.
  rewrite x_ident, x_fresh; simpl. rewrite Hdim; simpl.
  apply Z.ltb_lt in Hn. rewrite Hn; simpl.
  rewrite (size_check T _ Hsz). reflexivity.
Qed.

Lemma declare_const (spec : string) (init : list expr) (vs : list value) :
  type_ok T spec ->
  eval_list T E init = Some vs ->
  declare T E (static_const spec x init)
  = Some (E ++ [(x, mkobject (Tnamed spec) true (sizeof_name T spec) (Some vs))])%list.
Proof.
  intros Hok Hvs. unfold declare, static_const, elab_init; simpl.
  rewrite x_ident, x_fresh; simpl.
  rewrite (size_check T _ Hok); simpl. rewrite Hvs. reflexivity.
Qed.

End Declarations.

Lemma target_ok_types (T : target) (k : kind) :
  target_ok T k ->
  type_ok T (control_block_type k) /\ type_ok T (attribute_type k).
Proof. intros H. exact H. Qed.

(** A complete type exists only when [size_t] has a positive width. *)
Lemma type_ok_size_t_bits (T : target) (n : string) :
  type_ok T n -> 0 < size_t_bits T.
Proof.
  unfold type_ok, size_max. intros [Hpos Hmax].
  destruct (Z_lt_le_dec 0 (size_t_bits T)) as [Hb | Hb]; [exact Hb|].
  exfalso.
  assert (2 ^ size_t_bits T <= 1).
  { destruct (Z.eq_dec (size_t_bits T) 0) as [-> | Hne]; [reflexivity|].
    rewrite Z.pow_neg_r by lia. lia. }
  lia.
Qed.

Lemma target_ok_size_t_bits (T : target) (k : kind) :
  target_ok T k -> 0 < size_t_bits T.
Proof. intros [H _]. exact (type_ok_size_t_bits T _ H). Qed.

Lemma to_size_t_small (T : target) (z : Z) :
  0 <= z <= size_max T -> to_size_t T z = z.
Proof.
  unfold to_size_t, size_max. intros H. apply Z.mod_small. lia.
Qed.

Lemma to_size_t_bound (T : target) (z : Z) :
  0 < size_t_bits T -> to_size_t T z <= size_max T.
Proof.
  intros Hb. unfold to_size_t, size_max.
  assert (0 < 2 ^ size_t_bits T) by (apply Z.pow_pos_nonneg; lia).
  pose proof (Z.mod_pos_bound z (2 ^ size_t_bits T)). lia.
Qed.

Lemma to_signed_small (bits p : Z) :
  0 < bits -> - 2 ^ (bits - 1) <= p < 2 ^ (bits - 1) -> to_signed bits p = p.
Proof.
  intros Hb Hp. unfold to_signed.
  assert (H2 : 2 ^ bits = 2 * 2 ^ (bits - 1)).
  { replace bits with (Z.succ (bits - 1)) at 1 by lia.
    rewrite Z.pow_succ_r by lia. reflexivity. }
  rewrite Z.mod_small by lia. lia.
Qed.

(** Looking an identifier up among the objects one expansion has declared
    so far. *)
Ltac fresh_or_found :=
  cbn [lookup app];
  repeat first
    [ rewrite String.eqb_refl
    | rewrite paste_eqb_same_name by discriminate ];
  try reflexivity.

Ltac ident_ok Hn :=
  cbn [declared expand map forallb decl_name
       OS_THREAD_STATIC OS_MESSAGE_QUEUE_STATIC OS_MUTEX_STATIC
       OS_SEMAPHORE_STATIC OS_TIMER_STATIC OS_MEMORY_POOL_STATIC
       static_object static_array static_const] in Hn;
  repeat (let H := fresh in apply andb_true_iff in Hn as [H Hn]; try exact H).

(** ** What each macro generates *)

Lemma describe_thread (T : target) (n : string) (w p : Z) :
  target_ok T Thread -> valid T (Ithread n w p) ->
  describe T (Ithread n w p)
  = Some
      (mkdescriptor
         (Some (n ## "_stack",
                mkobject (Tarray "StackType_t" w) false
                  (w * sizeof_name T "StackType_t") None))
         (n ## "_cb",
          mkobject (Tnamed "StaticTask_t") false (sizeof_name T "StaticTask_t") None)
         (n ## "_attributes",
          mkobject (Tnamed "osThreadAttr_t") true (sizeof_name T "osThreadAttr_t")
            (Some [ Vstr n; Vint 0;
                    Vptr (n ## "_cb"); Vint (sizeof_name T "StaticTask_t");
                    Vptr (n ## "_stack"); Vint (w * sizeof_name T "StackType_t");
                    Vint (to_signed (osPriority_t_bits T) p); Vint 0; Vint 0 ]))
         [ (Rname, Vstr n); (Rreserved, Vint 0);
           (Rcb_ref, Vptr (n ## "_cb"));
           (Rcb_size, Vint (sizeof_name T "StaticTask_t"));
           (Rstack_ref, Vptr (n ## "_stack"));
           (Rstack_size, Vint (w * sizeof_name T "StackType_t"));
           (Rpriority, Vint (to_signed (osPriority_t_bits T) p));
           (Rreserved, Vint 0); (Rreserved, Vint 0) ]).
Proof.
  intros Hok (Hn & Hw & Hsz).
  destruct (target_ok_types T Thread Hok) as [Hcb Hattr].
  unfold describe, generate. cbn [expand OS_THREAD_STATIC elaborate].
  erewrite declare_array;
    [ | ident_ok Hn | fresh_or_found | reflexivity | exact Hw
      | exact Hsz ].
  cbn [obind app].
  erewrite declare_object; [ | ident_ok Hn | fresh_or_found | exact Hcb ].
  cbn [obind app].
  erewrite declare_const;
    [ | ident_ok Hn | fresh_or_found | exact Hattr
      | cbn [eval_list eval obind]; fresh_or_found ].
  reflexivity.
Qed.

Lemma describe_message_queue (T : target) (n : string) (c : Z) (t : string) :
  target_ok T MessageQueue -> valid T (Imessage_queue n c t) ->
  describe T (Imessage_queue n c t)
  = Some
      (mkdescriptor
         (Some (n ## "_queue_mem",
                mkobject (Tarray "uint8_t" (to_size_t T (c * sizeof_name T t))) false
                  (to_size_t T (c * sizeof_name T t)) None))
         (n ## "_cb",
          mkobject (Tnamed "StaticQueue_t") false (sizeof_name T "StaticQueue_t") None)
         (n ## "_attributes",
          mkobject (Tnamed "osMessageQueueAttr_t") true
            (sizeof_name T "osMessageQueueAttr_t")
            (Some [ Vstr n; Vint 0;
                    Vptr (n ## "_cb"); Vint (sizeof_name T "StaticQueue_t");
                    Vptr (n ## "_queue_mem"); Vint (to_size_t T (c * sizeof_name T t)) ]))
         [ (Rname, Vstr n); (Rreserved, Vint 0);
           (Rcb_ref, Vptr (n ## "_cb"));
           (Rcb_size, Vint (sizeof_name T "StaticQueue_t"));
           (Rstorage_ref, Vptr (n ## "_queue_mem"));
           (Rstorage_size, Vint (to_size_t T (c * sizeof_name T t))) ]).
Proof.
  intros Hok (Hn & Hpos).
  destruct (target_ok_types T MessageQueue Hok) as [Hcb Hattr].
  pose proof (to_size_t_bound T (c * sizeof_name T t) (target_ok_size_t_bits T _ Hok)) as Hmax.
  unfold describe, generate. cbn [expand OS_MESSAGE_QUEUE_STATIC elaborate].
  erewrite declare_object; [ | ident_ok Hn | fresh_or_found | exact Hcb ].
  cbn [obind app].
  erewrite declare_array with (n := to_size_t T (c * sizeof_name T t));
    [ | ident_ok Hn | fresh_or_found
      | reflexivity
      | exact Hpos
      | change (sizeof_name T "uint8_t") with 1; lia ].
  change (sizeof_name T "uint8_t") with 1. rewrite Z.mul_1_r.
  cbn [obind app].
  erewrite declare_const;
    [ | ident_ok Hn | fresh_or_found | exact Hattr
      | cbn [eval_list eval obind]; fresh_or_found ].
  reflexivity.
Qed.

Lemma describe_memory_pool (T : target) (n : string) (c : Z) (t : string) :
  target_ok T MemoryPool -> valid T (Imemory_pool n c t) ->
  describe T (Imemory_pool n c t)
  = Some
      (mkdescriptor
         (Some (n ## "_mem",
                mkobject (Tarray "uint8_t" (to_size_t T (c * sizeof_name T t))) false
                  (to_size_t T (c * sizeof_name T t)) None))
         (n ## "_cb",
          mkobject (Tnamed "StaticMemoryPool_t") false
            (sizeof_name T "StaticMemoryPool_t") None)
         (n ## "_attributes",
          mkobject (Tnamed "osMemoryPoolAttr_t") true
            (sizeof_name T "osMemoryPoolAttr_t")
            (Some [ Vstr n; Vint 0;
                    Vptr (n ## "_cb"); Vint (sizeof_name T "StaticMemoryPool_t");
                    Vptr (n ## "_mem"); Vint (to_size_t T (c * sizeof_name T t)) ]))
         [ (Rname, Vstr n); (Rreserved, Vint 0);
           (Rcb_ref, Vptr (n ## "_cb"));
           (Rcb_size, Vint (sizeof_name T "StaticMemoryPool_t"));
           (Rstorage_ref, Vptr (n ## "_mem"));
           (Rstorage_size, Vint (to_size_t T (c * sizeof_name T t))) ]).
Proof.
  intros Hok (Hn & Hpos).
  destruct (target_ok_types T MemoryPool Hok) as [Hcb Hattr].
  pose proof (to_size_t_bound T (c * sizeof_name T t) (target_ok_size_t_bits T _ Hok)) as Hmax.
  unfold describe, generate. cbn [expand OS_MEMORY_POOL_STATIC elaborate].
  erewrite declare_object; [ | ident_ok Hn | fresh_or_found | exact Hcb ].
  cbn [obind app].
  erewrite declare_array with (n := to_size_t T (c * sizeof_name T t));
    [ | ident_ok Hn | fresh_or_found
      | reflexivity
      | exact Hpos
      | change (sizeof_name T "uint8_t") with 1; lia ].
  change (sizeof_name T "uint8_t") with 1. rewrite Z.mul_1_r.
  cbn [obind app].
  erewrite declare_const;
    [ | ident_ok Hn | fresh_or_found | exact Hattr
      | cbn [eval_list eval obind]; fresh_or_found ].
  reflexivity.
Qed.

(** The three kinds without backing storage share one proof. *)
Ltac describe_without_storage T k Hok Hn :=
  destruct (target_ok_types T k Hok) as [Hcb Hattr];
  unfold describe, generate;
  cbn [expand OS_MUTEX_STATIC OS_SEMAPHORE_STATIC OS_TIMER_STATIC elaborate];
  erewrite declare_object; [ | ident_ok Hn | fresh_or_found | exact Hcb ];
  cbn [obind app];
  erewrite declare_const;
    [ | ident_ok Hn | fresh_or_found | exact Hattr
      | cbn [eval_list eval obind]; fresh_or_found ];
  reflexivity.

Lemma describe_mutex (T : target) (n : string) :
  target_ok T Mutex -> valid T (Imutex n) ->
  describe T (Imutex n)
  = Some
      (mkdescriptor None
         (n ## "_cb",
          mkobject (Tnamed "StaticSemaphore_t") false
            (sizeof_name T "StaticSemaphore_t") None)
         (n ## "_attributes",
          mkobject (Tnamed "osMutexAttr_t") true (sizeof_name T "osMutexAttr_t")
            (Some [ Vstr n; Vint (osMutexPrioInherit T);
                    Vptr (n ## "_cb"); Vint (sizeof_name T "StaticSemaphore_t") ]))
         [ (Rname, Vstr n); (Rflag, Vint (osMutexPrioInherit T));
           (Rcb_ref, Vptr (n ## "_cb"));
           (Rcb_size, Vint (sizeof_name T "StaticSemaphore_t")) ]).
Proof.
  intros Hok (Hn & _). describe_without_storage T Mutex Hok Hn.
Qed.

Lemma describe_semaphore (T : target) (n : string) :
  target_ok T Semaphore -> valid T (Isemaphore n) ->
  describe T (Isemaphore n)
  = Some
      (mkdescriptor None
         (n ## "_cb",
          mkobject (Tnamed "StaticSemaphore_t") false
            (sizeof_name T "StaticSemaphore_t") None)
         (n ## "_attributes",
          mkobject (Tnamed "osSemaphoreAttr_t") true
            (sizeof_name T "osSemaphoreAttr_t")
            (Some [ Vstr n; Vint 0;
                    Vptr (n ## "_cb"); Vint (sizeof_name T "StaticSemaphore_t") ]))
         [ (Rname, Vstr n); (Rflag, Vint 0);
           (Rcb_ref, Vptr (n ## "_cb"));
           (Rcb_size, Vint (sizeof_name T "StaticSemaphore_t")) ]).
Proof.
  intros Hok (Hn & _). describe_without_storage T Semaphore Hok Hn.
Qed.

Lemma describe_timer (T : target) (n : string) :
  target_ok T Timer -> valid T (Itimer n) ->
  describe T (Itimer n)
  = Some
      (mkdescriptor None
         (n ## "_cb",
          mkobject (Tnamed "StaticTimer_t") false (sizeof_name T "StaticTimer_t") None)
         (n ## "_attributes",
          mkobject (Tnamed "osTimerAttr_t") true (sizeof_name T "osTimerAttr_t")
            (Some [ Vstr n; Vint 0;
                    Vptr (n ## "_cb"); Vint (sizeof_name T "StaticTimer_t") ]))
         [ (Rname, Vstr n); (Rflag, Vint 0);
           (Rcb_ref, Vptr (n ## "_cb"));
           (Rcb_size, Vint (sizeof_name T "StaticTimer_t")) ]).
Proof.
  intros Hok (Hn & _). describe_without_storage T Timer Hok Hn.
Qed.

(** Every valid invocation generates a descriptor. *)
Lemma valid_generates (T : target) (i : invocation) :
  target_ok T (kind_of i) -> valid T i -> exists d, describe T i = Some d.
Proof.
  intros Hok Hv. destruct i; simpl in Hok.
  - rewrite describe_thread by assumption. eauto.
  - rewrite describe_message_queue by assumption. eauto.
  - rewrite describe_mutex by assumption. eauto.
  - rewrite describe_semaphore by assumption. eauto.
  - rewrite describe_timer by assumption. eauto.
  - rewrite describe_memory_pool by assumption. eauto.
Qed.

(** ** Accepted expansions

    The side conditions [target_ok] and [valid] of the properties are the
    conditions under which the elaboration above accepts an expansion. *)

Lemma oguard_some (b : bool) (u : unit) : oguard b = Some u -> b = true.
Proof. destruct b; [reflexivity | discriminate]. Qed.

Lemma declare_inv (T : target) (E E' : env) (d : declaration) :
  declare T E d = Some E' ->
  is_identifier (decl_name d) = true /\
  exists ty,
    elab_type T E d = Some ty /\
    0 < sizeof T ty <= size_max T /\
    map fst E' = (map fst E ++ [decl_name d])%list.
Proof.
  unfold declare. intros H.
  destruct (is_identifier (decl_name d)); [|discriminate H].
  split; [reflexivity|]. cbn [oguard obind] in H.
  destruct (lookup E (decl_name d)); [discriminate H|].
  destruct (elab_type T E d) as [ty|]; [|discriminate H].
  exists ty. split; [reflexivity|]. cbn [obind] in H.
  destruct ((0 <? sizeof T ty) && (sizeof T ty <=? size_max T)) eqn:Hsz;
    [|discriminate H].
  apply andb_true_iff in Hsz as [H1 H2].
  apply Z.ltb_lt in H1. apply Z.leb_le in H2.
  split; [split; assumption|]. cbn [oguard obind] in H.
  destruct (elab_init T E d); [|discriminate H].
  cbn [obind] in H. injection H as <-.
  rewrite map_app. reflexivity.
Qed.

(** Takes the accepted declarations of an elaboration apart. *)
Ltac declared_one He :=
  let E1 := fresh "E" in
  let Hd := fresh "Hd" in
  let Hid := fresh "Hid" in
  let ty := fresh "ty" in
  let Hty := fresh "Hty" in
  let Hsz := fresh "Hsz" in
  let Hnames := fresh "Hnames" in
  cbn [elaborate] in He;
  match type of He with
  | obind (declare ?T ?E ?d) _ = Some _ =>
      destruct (declare T E d) as [E1|] eqn:Hd; [|discriminate He];
      cbn [obind] in He;
      apply declare_inv in Hd as (Hid & ty & Hty & Hsz & Hnames);
      cbn [elab_type decl_dim decl_spec decl_name static_object static_array
           static_const eval obind] in Hty, Hid
  end.

Lemma generated_is_valid (T : target) (i : invocation) (d : descriptor) :
  describe T i = Some d -> target_ok T (kind_of i) /\ valid T i.
Proof.
  unfold describe, generate. intros H.
  destruct (elaborate T [] (expand i)) as [E|] eqn:He; [|discriminate H].
  clear H. unfold target_ok, type_ok, valid, declared.
  destruct i; cbn [expand kind_of control_block_type attribute_type] in *;
    unfold OS_THREAD_STATIC, OS_MESSAGE_QUEUE_STATIC, OS_MUTEX_STATIC,
      OS_SEMAPHORE_STATIC, OS_TIMER_STATIC, OS_MEMORY_POOL_STATIC in *;
    cbn [map forallb] in *;
    repeat declared_one He;
    repeat match goal with
      | H : Some _ = Some _ |- _ => injection H as <-
      | H : (if 0 <? ?n then _ else _) = Some _ |- _ =>
          destruct (Z.ltb_spec 0 n); [|discriminate H]
      end;
    cbn [sizeof decl_name static_object static_array static_const] in *;
    repeat match goal with
      | H : is_identifier _ = true |- _ => rewrite H; clear H
      end;
    change (sizeof_name T "uint8_t") with 1 in *;
    repeat split; try assumption; try lia.
Qed.

(** The elaboration accepts an expansion when the target and the arguments
    satisfy the side conditions, and only then. *)
Lemma generated_iff_valid (T : target) (i : invocation) :
  (exists d, describe T i = Some d) <-> target_ok T (kind_of i) /\ valid T i.
Proof.
  split.
  - intros [d Hd]. exact (generated_is_valid T i d Hd).
  - intros [Hok Hv]. exact (valid_generates T i Hok Hv).
Qed.

(** Rewrites [describe] on a valid invocation to what the macro generates. *)
Ltac generated Hok Hv :=
  first
    [ rewrite (describe_thread _ _ _ _ Hok Hv)
    | rewrite (describe_message_queue _ _ _ _ Hok Hv)
    | rewrite (describe_mutex _ _ Hok Hv)
    | rewrite (describe_semaphore _ _ Hok Hv)
    | rewrite (describe_timer _ _ Hok Hv)
    | rewrite (describe_memory_pool _ _ _ _ Hok Hv) ].

(** Checks the side conditions of a theorem on a concrete target. *)
Ltac concrete_type :=
  unfold type_ok; vm_compute; split; [reflexivity | discriminate].

Ltac concrete_target :=
  unfold target_ok; split; concrete_type.

Ltac concrete_valid :=
  unfold valid; vm_compute; repeat split; discriminate.

(** ** Sizes of the backing storage *)

(** In this elaboration, where the count has a type no wider than
    [size_t], the storage of every generated queue or pool has the size of
    the [size_t] product of the element count and the element size. *)
Lemma storage_size_is_size_t_product
    (T : target) (i : invocation) (n : string) (c : Z) (t : string)
    (d : descriptor) :
  i = Imessage_queue n c t \/ i = Imemory_pool n c t ->
  describe T i = Some d ->
  option_map (fun st => obj_size (snd st)) (d_storage d)
  = Some (to_size_t T (c * sizeof_name T t)).
Proof.
  intros Hi Hd. destruct (generated_is_valid T i d Hd) as [Hok Hv].
  destruct Hi as [-> | ->]; simpl in Hok; revert Hd; generated Hok Hv;
    intros Hd; injection Hd as <-; reflexivity.
Qed.

(** C1, as stated, fails: the dimension of the storage array is a product
    computed in [size_t].  With a 32-bit [size_t], a queue of 1073741825
    elements of four bytes is generated with a storage region of four
    bytes. *)
Lemma storage_size_wraps_in_size_t :
  exists d st,
    describe port32 (Imessage_queue "q" 1073741825 "uint32_t") = Some d /\
    d_storage d = Some st /\
    obj_size (snd st) = 4 /\
    field Rstorage_size (d_members d) = [Vint 4] /\
    obj_size (snd st) <> 1073741825 * sizeof_name port32 "uint32_t".
Proof.
  do 2 eexists. split; [vm_compute; reflexivity|].
  repeat split; try reflexivity. vm_compute. discriminate.
Qed.

(** C1 (amended): when [c * sizeof(t)] is representable in [size_t], a
    message queue or memory pool of [c] elements of type [t] has a backing
    storage region of exactly [c * sizeof(t)] bytes, an array of that many
    [uint8_t] without padding or rounding, and the storage-size member of
    its attributes record holds the same number. *)
Theorem storage_size_is_count_times_element_size
    (T : target) (i : invocation) (n : string) (c : Z) (t : string) :
  i = Imessage_queue n c t \/ i = Imemory_pool n c t ->
  target_ok T (kind_of i) -> valid T i ->
  0 <= c * sizeof_name T t <= size_max T ->
  exists d st,
    describe T i = Some d /\
    d_storage d = Some st /\
    obj_type (snd st) = Tarray "uint8_t" (c * sizeof_name T t) /\
    obj_size (snd st) = c * sizeof_name T t /\
    field Rstorage_size (d_members d) = [Vint (c * sizeof_name T t)].
Proof.
  intros [-> | ->] Hok Hv Hfit; simpl in Hok; generated Hok Hv;
    rewrite (to_size_t_small T _ Hfit);
    eexists; eexists; repeat split; reflexivity.
Qed.

(** A queue named [evt_q] with capacity 8 and 4-byte elements: 32 bytes. *)
Lemma storage_size_evt_q :
  exists d st,
    describe port32 (Imessage_queue "evt_q" 8 "uint32_t") = Some d /\
    d_storage d = Some st /\
    obj_type (snd st) = Tarray "uint8_t" 32 /\
    obj_size (snd st) = 32 /\
    field Rstorage_size (d_members d) = [Vint 32].
Proof.
  apply (storage_size_is_count_times_element_size port32
           (Imessage_queue "evt_q" 8 "uint32_t") "evt_q" 8 "uint32_t").
  - left. reflexivity.
  - concrete_target.
  - concrete_valid.
  - vm_compute. split; discriminate.
Defined.

(** ** Storage members *)

(** C2, as stated, fails for the mutex: its kind is not the semaphore, yet
    the macro declares no backing storage and the attributes record has
    neither a storage reference nor a storage size. *)
Lemma mutex_has_no_storage_members :
  exists d,
    describe port32 (Imutex "m") = Some d /\
    kind_of (Imutex "m") <> Semaphore /\
    ~ storage_bound d.
Proof.
  eexists. split; [vm_compute; reflexivity|]. split; [discriminate|].
  intros (st & Hst & _). discriminate Hst.
Qed.

(** C2 (amended): for threads, message queues and memory pools the
    attributes record holds a storage reference and a storage size that are
    the address and the size of the generated backing storage (the stack,
    for a thread); mutexes, semaphores and timers have no backing storage
    and no storage members.  A semaphore record consists of four members
    (name, flag, control-block reference and size), none of them a count. *)
Theorem storage_members_by_kind (T : target) (i : invocation) :
  target_ok T (kind_of i) -> valid T i ->
  exists d,
    describe T i = Some d /\
    match kind_of i with
    | Thread | MessageQueue | MemoryPool => storage_bound d
    | Mutex | Timer => no_storage d
    | Semaphore =>
        no_storage d /\
        map fst (d_members d) = [Rname; Rflag; Rcb_ref; Rcb_size] /\
        initializer_count d = 4%nat
    end.
Proof.
  intros Hok Hv. destruct i; simpl in Hok; generated Hok Hv;
    eexists; (split; [reflexivity|]); cbn [kind_of];
    unfold storage_bound, no_storage;
    try (eexists; repeat split; reflexivity);
    repeat split; reflexivity.
Qed.

Lemma storage_members_semaphore :
  exists d,
    describe port32 (Isemaphore "sem") = Some d /\
    no_storage d /\
    map fst (d_members d) = [Rname; Rflag; Rcb_ref; Rcb_size] /\
    initializer_count d = 4%nat.
Proof.
  apply (storage_members_by_kind port32 (Isemaphore "sem")).
  - concrete_target.
  - concrete_valid.
Defined.

(** ** Control blocks *)

(** C3: for every kind, the control-block reference of the attributes
    record is the address of the generated control block and the
    control-block size is the size of that object, which has the
    control-block type of the kind. *)
Theorem control_block_reference_and_size (T : target) (i : invocation) :
  target_ok T (kind_of i) -> valid T i ->
  exists d,
    describe T i = Some d /\
    obj_type (snd (d_control_block d)) = Tnamed (control_block_type (kind_of i)) /\
    obj_size (snd (d_control_block d)) = sizeof_name T (control_block_type (kind_of i)) /\
    field Rcb_ref (d_members d) = [Vptr (fst (d_control_block d))] /\
    field Rcb_size (d_members d) = [Vint (obj_size (snd (d_control_block d)))].
Proof.
  intros Hok Hv. destruct i; simpl in Hok; generated Hok Hv;
    eexists; repeat split; reflexivity.
Qed.

Lemma control_block_of_timer :
  exists d,
    describe port32 (Itimer "tick") = Some d /\
    obj_type (snd (d_control_block d)) = Tnamed "StaticTimer_t" /\
    obj_size (snd (d_control_block d)) = 44 /\
    field Rcb_ref (d_members d) = [Vptr (fst (d_control_block d))] /\
    field Rcb_size (d_members d) = [Vint (obj_size (snd (d_control_block d)))].
Proof.
  apply (control_block_reference_and_size port32 (Itimer "tick")).
  - concrete_target.
  - concrete_valid.
Defined.

(** ** Member order *)

(** C4: the initializers of a thread record are, in order, the name, zero,
    the control-block reference and size, the stack reference and size, the
    priority, and two zeros; those of a queue record are the name, zero,
    the control-block reference and size, the storage reference and size.
    Each of the nine (six) members of the external structure receives its
    own initializer. *)
Theorem thread_and_queue_member_order
    (T : target) (n : string) (w p : Z) (m : string) (c : Z) (t : string) :
  target_ok T Thread -> valid T (Ithread n w p) ->
  target_ok T MessageQueue -> valid T (Imessage_queue m c t) ->
  (exists d cb st,
     describe T (Ithread n w p) = Some d /\
     d_control_block d = cb /\ d_storage d = Some st /\
     initializer_count d = List.length (layout Thread) /\
     d_members d =
       [ (Rname, Vstr n); (Rreserved, Vint 0);
         (Rcb_ref, Vptr (fst cb)); (Rcb_size, Vint (obj_size (snd cb)));
         (Rstack_ref, Vptr (fst st)); (Rstack_size, Vint (obj_size (snd st)));
         (Rpriority, Vint (to_signed (osPriority_t_bits T) p));
         (Rreserved, Vint 0); (Rreserved, Vint 0) ]) /\
  (exists d cb st,
     describe T (Imessage_queue m c t) = Some d /\
     d_control_block d = cb /\ d_storage d = Some st /\
     initializer_count d = List.length (layout MessageQueue) /\
     d_members d =
       [ (Rname, Vstr m); (Rreserved, Vint 0);
         (Rcb_ref, Vptr (fst cb)); (Rcb_size, Vint (obj_size (snd cb)));
         (Rstorage_ref, Vptr (fst st));
         (Rstorage_size, Vint (obj_size (snd st))) ]).
Proof.
  intros Hok1 Hv1 Hok2 Hv2. split.
  - generated Hok1 Hv1. do 3 eexists. repeat split; reflexivity.
  - generated Hok2 Hv2. do 3 eexists. repeat split; reflexivity.
Qed.

Lemma member_order_worker_evt_q :
  (exists d cb st,
     describe port32 (Ithread "worker" 256 24) = Some d /\
     d_control_block d = cb /\ d_storage d = Some st /\
     initializer_count d = 9%nat /\
     d_members d =
       [ (Rname, Vstr "worker"); (Rreserved, Vint 0);
         (Rcb_ref, Vptr (fst cb)); (Rcb_size, Vint (obj_size (snd cb)));
         (Rstack_ref, Vptr (fst st)); (Rstack_size, Vint (obj_size (snd st)));
         (Rpriority, Vint 24);
         (Rreserved, Vint 0); (Rreserved, Vint 0) ]) /\
  (exists d cb st,
     describe port32 (Imessage_queue "evt_q" 8 "uint32_t") = Some d /\
     d_control_block d = cb /\ d_storage d = Some st /\
     initializer_count d = 6%nat /\
     d_members d =
       [ (Rname, Vstr "evt_q"); (Rreserved, Vint 0);
         (Rcb_ref, Vptr (fst cb)); (Rcb_size, Vint (obj_size (snd cb)));
         (Rstorage_ref, Vptr (fst st));
         (Rstorage_size, Vint (obj_size (snd st))) ]).
Proof.
  apply (thread_and_queue_member_order port32
           "worker" 256 24 "evt_q" 8 "uint32_t").
  - concrete_target.
  - concrete_valid.
  - concrete_target.
  - concrete_valid.
Defined.

(** ** Threads *)

(** C5: a thread generated with [w] stack words and priority [p] has a
    stack region that is an array of exactly [w] stack words, a priority
    member equal to [p], and three reserved members (the one after the name
    and the two trailing ones), all zero. *)
Theorem thread_stack_priority_reserved (T : target) (n : string) (w p : Z) :
  target_ok T Thread -> valid T (Ithread n w p) ->
  representable_priority T p ->
  exists d st,
    describe T (Ithread n w p) = Some d /\
    d_storage d = Some st /\
    obj_type (snd st) = Tarray "StackType_t" w /\
    field Rpriority (d_members d) = [Vint p] /\
    field Rreserved (d_members d) = [Vint 0; Vint 0; Vint 0] /\
    nth_error (d_members d) 1 = Some (Rreserved, Vint 0) /\
    nth_error (d_members d) 7 = Some (Rreserved, Vint 0) /\
    nth_error (d_members d) 8 = Some (Rreserved, Vint 0).
Proof.
  intros Hok Hv Hp. generated Hok Hv.
  do 2 eexists. repeat split; try reflexivity.
  cbn. rewrite to_signed_small; [reflexivity | apply Hp | apply Hp].
Qed.

(** A thread named [worker] with a 256-word stack and priority 24. *)
Lemma thread_worker :
  exists d st,
    describe port32 (Ithread "worker" 256 24) = Some d /\
    d_storage d = Some st /\
    obj_type (snd st) = Tarray "StackType_t" 256 /\
    field Rpriority (d_members d) = [Vint 24] /\
    field Rreserved (d_members d) = [Vint 0; Vint 0; Vint 0] /\
    nth_error (d_members d) 1 = Some (Rreserved, Vint 0) /\
    nth_error (d_members d) 7 = Some (Rreserved, Vint 0) /\
    nth_error (d_members d) 8 = Some (Rreserved, Vint 0).
Proof.
  apply (thread_stack_priority_reserved port32 "worker" 256 24).
  - concrete_target.
  - concrete_valid.
  - unfold representable_priority. vm_compute.
    split; [reflexivity | split; [discriminate | reflexivity]].
Defined.

(** C9: the stack-size member of a thread record is a number of bytes: the
    size of the stack array, [w * sizeof(StackType_t)], for a macro argument
    of [w] words. *)
Theorem stack_size_in_bytes (T : target) (n : string) (w p : Z) :
  target_ok T Thread -> valid T (Ithread n w p) ->
  exists d st,
    describe T (Ithread n w p) = Some d /\
    d_storage d = Some st /\
    obj_size (snd st) = w * sizeof_name T "StackType_t" /\
    field Rstack_size (d_members d) = [Vint (w * sizeof_name T "StackType_t")].
Proof.
  intros Hok Hv. generated Hok Hv. do 2 eexists. repeat split; reflexivity.
Qed.

Lemma stack_size_worker :
  exists d st,
    describe port32 (Ithread "worker" 256 24) = Some d /\
    d_storage d = Some st /\
    obj_size (snd st) = 1024 /\
    field Rstack_size (d_members d) = [Vint 1024].
Proof.
  apply (stack_size_in_bytes port32 "worker" 256 24).
  - concrete_target.
  - concrete_valid.
Defined.

(** ** Flags and names *)

(** C7: in a mutex, semaphore or timer record the member between the name
    and the control-block reference is the flag member; the mutex macro
    sets it to [osMutexPrioInherit], the semaphore and timer macros to
    zero. *)
Theorem flag_member_of_mutex_semaphore_timer (T : target) (i : invocation) :
  kind_of i = Mutex \/ kind_of i = Semaphore \/ kind_of i = Timer ->
  target_ok T (kind_of i) -> valid T i ->
  exists d,
    describe T i = Some d /\
    map fst (d_members d) = [Rname; Rflag; Rcb_ref; Rcb_size] /\
    field Rflag (d_members d)
    = [Vint (match kind_of i with
             | Mutex => osMutexPrioInherit T
             | _ => 0
             end)].
Proof.
  intros Hk Hok Hv.
  destruct i; simpl in Hk;
    try (exfalso; destruct Hk as [Hk | [Hk | Hk]]; discriminate Hk);
    simpl in Hok; generated Hok Hv; eexists; repeat split; reflexivity.
Qed.

Lemma flag_member_of_a_mutex :
  exists d,
    describe port32 (Imutex "lock") = Some d /\
    map fst (d_members d) = [Rname; Rflag; Rcb_ref; Rcb_size] /\
    field Rflag (d_members d) = [Vint 2].
Proof.
  apply (flag_member_of_mutex_semaphore_timer port32 (Imutex "lock")).
  - left. reflexivity.
  - concrete_target.
  - concrete_valid.
Defined.

(** C8: for every kind the name member of the attributes record is the
    string literal spelling the macro's [name] argument, the same argument
    from which the identifiers of the control block and of the record are
    pasted. *)
Theorem name_member_is_stringified_name (T : target) (i : invocation) :
  target_ok T (kind_of i) -> valid T i ->
  exists d,
    describe T i = Some d /\
    field Rname (d_members d) = [Vstr (stringify (name_of i))] /\
    fst (d_control_block d) = name_of i ## "_cb" /\
    fst (d_attributes d) = name_of i ## "_attributes".
Proof.
  intros Hok Hv. destruct i; simpl in Hok; generated Hok Hv;
    eexists; repeat split; reflexivity.
Qed.

Lemma name_member_of_a_semaphore :
  exists d,
    describe port32 (Isemaphore "my_semaphore") = Some d /\
    field Rname (d_members d) = [Vstr "my_semaphore"] /\
    fst (d_control_block d) = "my_semaphore_cb" /\
    fst (d_attributes d) = "my_semaphore_attributes".
Proof.
  apply (name_member_is_stringified_name port32 (Isemaphore "my_semaphore")).
  - concrete_target.
  - concrete_valid.
Defined.

(** C10: the second initializer of a mutex record is always
    [osMutexPrioInherit], whatever the (only) argument of the macro, and
    the second initializer of every other kind is always zero. *)
Theorem mutex_priority_inheritance_unconditional (T : target) (i : invocation) :
  target_ok T (kind_of i) -> valid T i ->
  exists d vs,
    describe T i = Some d /\
    obj_init (snd (d_attributes d)) = Some vs /\
    nth_error vs 1 = Some (Vint (attr_bits T (kind_of i))) /\
    option_map snd (second_member (d_members d))
    = Some (Vint (attr_bits T (kind_of i))).
Proof.
  intros Hok Hv. destruct i; simpl in Hok; generated Hok Hv;
    do 2 eexists; repeat split; reflexivity.
Qed.

Lemma priority_inheritance_of_a_mutex :
  exists d vs,
    describe port32 (Imutex "lock") = Some d /\
    obj_init (snd (d_attributes d)) = Some vs /\
    nth_error vs 1 = Some (Vint 2) /\
    option_map snd (second_member (d_members d)) = Some (Vint 2).
Proof.
  apply (mutex_priority_inheritance_unconditional port32 (Imutex "lock")).
  - concrete_target.
  - concrete_valid.
Defined.

(** ** Identifiers of distinct names *)

(** Decides the comparison of two pasted identifiers of different names. *)
Ltac paste_eqb Hne :=
  repeat match goal with
    | |- context [String.eqb (?a ## ?s) (?b ## ?s)] =>
        rewrite (paste_eqb_same_suffix a b s Hne)
    | |- context [String.eqb (?a ## "_queue_mem") (?b ## "_mem")] =>
        rewrite (paste_eqb_queue_mem a b)
    | |- context [String.eqb (?a ## "_mem") (?b ## "_queue_mem")] =>
        rewrite (paste_eqb_mem_queue a b)
    | |- context [String.eqb (?a ## String ?c ?r) (?b ## String ?c' ?r')] =>
        rewrite (paste_eqb_last a b c c' r r') by (vm_compute; discriminate)
    end.

(** C6: the code breaks the claim for a message queue named [q] and a
    memory pool named [q_queue].  Their names are distinct and both are
    generated, yet both declare their backing storage under the one
    identifier [q_queue_mem], and the storage reference of both attributes
    records is the address of that object: the pool suffix [_mem] is a
    suffix of the queue suffix [_queue_mem]. *)
Lemma queue_and_pool_share_storage_identifier :
  name_of (Imessage_queue "q" 8 "uint32_t")
    <> name_of (Imemory_pool "q_queue" 8 "uint32_t") /\
  shared (Imessage_queue "q" 8 "uint32_t") (Imemory_pool "q_queue" 8 "uint32_t")
    = ["q_queue_mem"] /\
  (exists di dj,
     describe port32 (Imessage_queue "q" 8 "uint32_t") = Some di /\
     describe port32 (Imemory_pool "q_queue" 8 "uint32_t") = Some dj /\
     option_map fst (d_storage di) = Some "q_queue_mem" /\
     option_map fst (d_storage dj) = Some "q_queue_mem" /\
     storage_refs (d_members di) = [Vptr "q_queue_mem"] /\
     storage_refs (d_members dj) = [Vptr "q_queue_mem"]) /\
  ~ (forall i j, name_of i <> name_of j -> shared i j = []).
Proof.
  split; [discriminate|].
  split; [vm_compute; reflexivity|].
  split.
  - do 2 eexists. repeat split; vm_compute; reflexivity.
  - intros H.
    assert (Hs : shared (Imessage_queue "q" 8 "uint32_t")
                   (Imemory_pool "q_queue" 8 "uint32_t") = []).
    { apply H. discriminate. }
    vm_compute in Hs. discriminate Hs.
Qed.

(** The pair above is the only one: two invocations with distinct names
    have no identifier in common unless one is a message queue named [n]
    and the other a memory pool named [n_queue], and then the storage
    identifier is the only common one. *)
Theorem distinct_names_share_only_queue_pool_storage (i j : invocation) :
  name_of i <> name_of j ->
  shared i j =
    if queue_pool_clashb i j then [name_of i ## "_queue_mem"]
    else if queue_pool_clashb j i then [name_of i ## "_mem"]
    else [].
Proof.
  intros Hne. unfold shared, declared, queue_pool_clashb.
  destruct i, j; cbn in Hne |- *; paste_eqb Hne; cbn;
    try reflexivity;
    match goal with
    | |- context [String.eqb ?a ?b] => destruct (String.eqb a b); reflexivity
    end.
Qed.

Lemma distinct_names_thread_and_mutex :
  shared (Ithread "worker" 256 24) (Imutex "worker_lock") = [].
Proof.
  apply (distinct_names_share_only_queue_pool_storage
           (Ithread "worker" 256 24) (Imutex "worker_lock")).
  vm_compute. discriminate.
Defined.

(** ** Rejected expansions *)

(** A stack of zero words is not an array. *)
Example zero_stack_words_rejected :
  describe port32 (Ithread "worker" 0 24) = None.
Proof. vm_compute. reflexivity. Qed.

(** A name that is not an identifier does not paste to identifiers. *)
Example non_identifier_name_rejected :
  describe port32 (Imutex "1m") = None.
Proof. vm_compute. reflexivity. Qed.

(** [shared] is empty exactly when the two sets of identifiers are
    disjoint. *)
Lemma shared_nil_iff (i j : invocation) :
  shared i j = [] <-> forall x, In x (declared i) -> ~ In x (declared j).
Proof.
  unfold shared, mem. split.
  - intros Hnil x Hi Hj.
    assert (Hin : In x (filter (fun y => existsb (String.eqb y) (declared j))
                           (declared i))).
    { apply filter_In. split; [exact Hi|].
      apply existsb_exists. exists x. split; [exact Hj | apply String.eqb_refl]. }
    rewrite Hnil in Hin. exact Hin.
  - intros Hdis.
    destruct (filter (fun y => existsb (String.eqb y) (declared j)) (declared i))
      as [|x l] eqn:Hf; [reflexivity|].
    assert (Hin : In x (x :: l)) by (left; reflexivity).
    rewrite <- Hf in Hin. apply filter_In in Hin as [Hi Hex].
    apply existsb_exists in Hex as (y & Hj & Heq).
    apply String.eqb_eq in Heq. subst y. destruct (Hdis x Hi Hj).
Qed.

(** ** Expansions inside a translation unit

    The objects an expansion generates do not depend on the declarations
    that precede it, as long as these do not declare one of its names. *)

Lemma lookup_app (E0 E : env) (x : ident) :
  lookup (E0 ++ E)%list x
  = match lookup E0 x with
    | Some o => Some o
    | None => lookup E x
    end.
Proof.
  induction E0 as [|[y o] E0 IH]; simpl.
  - reflexivity.
  - destruct (String.eqb x y); [reflexivity | exact IH].
Qed.

Lemma lookup_fresh (E0 E : env) (x : ident) :
  fresh_in E0 x -> lookup (E0 ++ E)%list x = lookup E x.
Proof.
  unfold fresh_in. intros H. rewrite lookup_app, H. reflexivity.
Qed.

Lemma lookup_none_iff (E : env) (x : ident) :
  lookup E x = None <-> ~ In x (map fst E).
Proof.
  induction E as [|[y o] E IH]; simpl.
  - tauto.
  - destruct (String.eqb_spec x y) as [-> | Hne].
    + split; [discriminate | intros H; exfalso; apply H; left; reflexivity].
    + rewrite IH. split.
      * intros H [Heq | Hin]; [congruence | exact (H Hin)].
      * intros H Hin. apply H. right. exact Hin.
Qed.

Lemma eval_frame (T : target) (E0 E : env) (e : expr) :
  Forall (fresh_in E0) (expr_idents e) ->
  eval T (E0 ++ E)%list e = eval T E e.
Proof.
  induction e as [z|s|m|x|x|x|t|a IHa b IHb|t e IHe]; simpl; intros H;
    try reflexivity.
  - inversion H; subst. rewrite lookup_fresh by assumption. reflexivity.
  - inversion H; subst. rewrite lookup_fresh by assumption. reflexivity.
  - inversion H; subst. rewrite lookup_fresh by assumption. reflexivity.
  - apply Forall_app in H as [Ha Hb]. rewrite IHa, IHb by assumption.
    reflexivity.
  - rewrite IHe by assumption. reflexivity.
Qed.

Lemma eval_list_frame (T : target) (E0 E : env) (es : list expr) :
  Forall (fresh_in E0) (flat_map expr_idents es) ->
  eval_list T (E0 ++ E)%list es = eval_list T E es.
Proof.
  induction es as [|e es IH]; simpl; intros H.
  - reflexivity.
  - apply Forall_app in H as [He Hes].
    rewrite eval_frame, IH by assumption. reflexivity.
Qed.

Lemma declare_frame (T : target) (E0 E : env) (d : declaration) :
  Forall (fresh_in E0) (decl_idents d) ->
  declare T (E0 ++ E)%list d = option_map (app E0) (declare T E d).
Proof.
  unfold decl_idents. intros H. inversion H as [|x l Hname Hrest]; subst.
  apply Forall_app in Hrest as [Hdim Hinit].
  unfold declare, elab_type, elab_init.
  destruct (is_identifier (decl_name d)); [|reflexivity]. cbn [oguard obind].
  rewrite lookup_fresh by assumption.
  destruct (lookup E (decl_name d)); [reflexivity|].
  destruct (decl_dim d) as [dim|].
  - rewrite eval_frame by assumption.
    destruct (eval T E dim) as [[n| |]|]; try reflexivity. cbn [obind].
    destruct (0 <? n); [|reflexivity]. cbn [obind].
    destruct (oguard _); [|reflexivity]. cbn [obind].
    destruct (decl_init d) as [es|].
    + rewrite eval_list_frame by assumption.
      destruct (eval_list T E es); [|reflexivity]. cbn [obind option_map].
      rewrite app_assoc. reflexivity.
    + cbn [obind option_map]. rewrite app_assoc. reflexivity.
  - cbn [obind]. destruct (oguard _); [|reflexivity]. cbn [obind].
    destruct (decl_init d) as [es|].
    + rewrite eval_list_frame by assumption.
      destruct (eval_list T E es); [|reflexivity]. cbn [obind option_map].
      rewrite app_assoc. reflexivity.
    + cbn [obind option_map]. rewrite app_assoc. reflexivity.
Qed.

Lemma elaborate_frame (T : target) (E0 : env) (ds : list declaration) (E : env) :
  Forall (fresh_in E0) (flat_map decl_idents ds) ->
  elaborate T (E0 ++ E)%list ds = option_map (app E0) (elaborate T E ds).
Proof.
  revert E. induction ds as [|d ds IH]; intros E H; cbn [elaborate].
  - reflexivity.
  - cbn [flat_map] in H. apply Forall_app in H as [Hd Hds].
    rewrite declare_frame by assumption.
    destruct (declare T E d) as [E'|]; cbn [option_map obind]; [|reflexivity].
    apply IH. exact Hds.
Qed.

(** The macros refer to no identifier besides those they declare. *)
Lemma expansion_is_closed (i : invocation) :
  incl (flat_map decl_idents (expand i)) (declared i).
Proof.
  destruct i; intros x Hx; cbn in Hx |- *;
    repeat match goal with
      | H : _ \/ _ |- _ => destruct H as [<- | H]
      | H : False |- _ => destruct H
      end; tauto.
Qed.

(** An expansion placed after the declarations [E0] generates the same
    objects as on its own. *)
Theorem elaborate_in_context (T : target) (E0 : env) (i : invocation) :
  Forall (fresh_in E0) (declared i) ->
  elaborate T E0 (expand i) = option_map (app E0) (generate T i).
Proof.
  intros H. unfold generate. rewrite <- elaborate_frame.
  - rewrite app_nil_r. reflexivity.
  - apply Forall_forall. intros x Hx.
    rewrite Forall_forall in H. apply H. apply (expansion_is_closed i x Hx).
Qed.

Lemma elaborate_app (T : target) (E : env) (ds1 ds2 : list declaration) :
  elaborate T E (ds1 ++ ds2)
  = (E' <- elaborate T E ds1 ;; elaborate T E' ds2).
Proof.
  revert E. induction ds1 as [|d ds1 IH]; intros E; cbn [app elaborate obind].
  - reflexivity.
  - destruct (declare T E d) as [E'|]; cbn [obind]; [apply IH | reflexivity].
Qed.

Lemma elaborate_names (T : target) (ds : list declaration) (E E' : env) :
  elaborate T E ds = Some E' ->
  map fst E' = (map fst E ++ map decl_name ds)%list.
Proof.
  revert E. induction ds as [|d ds IH]; intros E H; cbn [elaborate] in H.
  - injection H as <-. rewrite app_nil_r. reflexivity.
  - destruct (declare T E d) as [E1|] eqn:Hd; [|discriminate H].
    cbn [obind] in H. apply declare_inv in Hd as (_ & ty & _ & _ & Hnames).
    rewrite (IH E1 H), Hnames, <- app_assoc. reflexivity.
Qed.

(** The objects of a generated set are named by the identifiers the macro
    declares. *)
Lemma generated_names (T : target) (i : invocation) (E : env) :
  generate T i = Some E -> map fst E = declared i.
Proof.
  intros H. apply elaborate_names in H. exact H.
Qed.

(** Two expansions without a common identifier generate their objects side
    by side. *)
Theorem disjoint_expansions_compose
    (T : target) (i j : invocation) (Ei Ej : env) :
  shared i j = [] ->
  generate T i = Some Ei -> generate T j = Some Ej ->
  elaborate T [] (expand i ++ expand j) = Some (Ei ++ Ej)%list.
Proof.
  intros Hs Hi Hj. rewrite elaborate_app.
  unfold generate in Hi. rewrite Hi. cbn [obind].
  rewrite elaborate_in_context, Hj; [reflexivity|].
  apply Forall_forall. intros x Hx. unfold fresh_in.
  apply lookup_none_iff. rewrite (generated_names T i Ei Hi).
  intros Hin. exact (proj1 (shared_nil_iff i j) Hs x Hin Hx).
Qed.

(** A name that is an identifier pastes to identifiers. *)
Lemma identifier_name_pastes (i : invocation) :
  is_identifier (name_of i) = true ->
  forallb is_identifier (declared i) = true.
Proof.
  intros Hn. destruct i; cbn in Hn |- *;
    rewrite !(is_identifier_paste _ _ Hn) by reflexivity; reflexivity.
Qed.

(** * Further properties of the macros *)

(** ** Names *)

Lemma is_identifier_paste_iff (n : string) (c : ascii) (r : string) :
  is_nondigit c = true -> all_chars is_ident_char r = true ->
  is_identifier (n ## String c r) = (String.eqb n "" || is_identifier n).
Proof.
  intros Hc Hr. unfold paste. destruct n as [|x n]; simpl.
  - rewrite Hc, Hr. reflexivity.
  - rewrite all_chars_app. simpl. unfold is_ident_char at 2.
    rewrite Hc, Hr. simpl. rewrite !andb_true_r. reflexivity.
Qed.

(** For identifiers of the basic character set: the names an invocation
    pastes are all of that form when its name argument is empty or of that
    form, and only then. *)
Theorem pasted_names_are_identifiers_iff (i : invocation) :
  forallb is_identifier (declared i)
  = (String.eqb (name_of i) "" || is_identifier (name_of i)).
Proof.
  destruct i; cbn [declared expand map forallb decl_name name_of
                   OS_THREAD_STATIC OS_MESSAGE_QUEUE_STATIC OS_MUTEX_STATIC
                   OS_SEMAPHORE_STATIC OS_TIMER_STATIC OS_MEMORY_POOL_STATIC
                   static_object static_array static_const];
    rewrite !is_identifier_paste_iff by reflexivity;
    destruct (String.eqb _ "" || is_identifier _); reflexivity.
Qed.

(** X9: the identifiers one invocation declares are pairwise distinct,
    whatever its name. *)
Theorem declared_identifiers_distinct (i : invocation) :
  NoDup (declared i).
Proof.
  destruct i; cbn [declared expand map decl_name
                   OS_THREAD_STATIC OS_MESSAGE_QUEUE_STATIC OS_MUTEX_STATIC
                   OS_SEMAPHORE_STATIC OS_TIMER_STATIC OS_MEMORY_POOL_STATIC
                   static_object static_array static_const];
    repeat constructor; cbn [In]; intros H;
    repeat match goal with
      | H : _ \/ _ |- _ => destruct H as [H | H]
      | H : False |- _ => destruct H
      | H : _ ## _ = _ ## _ |- _ =>
          unfold paste in H; apply append_cancel_l in H; discriminate H
      end.
Qed.

(** ** Redeclaration *)

Lemma declare_fresh (T : target) (E E' : env) (d : declaration) :
  declare T E d = Some E' -> lookup E (decl_name d) = None.
Proof.
  unfold declare. intros H.
  destruct (is_identifier (decl_name d)); [|discriminate H].
  cbn [oguard obind] in H.
  destruct (lookup E (decl_name d)); [discriminate H | reflexivity].
Qed.

(** Declarations are rejected when one of their names is already taken. *)
Lemma elaborate_redeclared (T : target) (ds : list declaration) (E : env) (x : ident) :
  In x (map decl_name ds) -> In x (map fst E) -> elaborate T E ds = None.
Proof.
  revert E. induction ds as [|d ds IH]; intros E Hx HE; cbn [elaborate].
  - destruct Hx.
  - destruct (declare T E d) as [E'|] eqn:Hd; [|reflexivity]. cbn [obind].
    destruct Hx as [<- | Hx].
    + apply declare_fresh in Hd. apply lookup_none_iff in Hd. contradiction.
    + apply (IH E' Hx). apply declare_inv in Hd as (_ & ty & _ & _ & Hnames).
      rewrite Hnames. apply in_or_app. left. exact HE.
Qed.

Lemma control_block_declared (i : invocation) :
  In (name_of i ## "_cb") (declared i).
Proof. destruct i; cbn; tauto. Qed.

Lemma attributes_declared (i : invocation) :
  In (name_of i ## "_attributes") (declared i).
Proof. destruct i; cbn; tauto. Qed.

Lemma in_shared (i j : invocation) (x : ident) :
  In x (declared i) -> In x (declared j) -> In x (shared i j).
Proof.
  intros Hi Hj. unfold shared, mem. apply filter_In. split; [exact Hi|].
  apply existsb_exists. exists x. split; [exact Hj | apply String.eqb_refl].
Qed.

(** X5: two invocations with the same name, of whatever kinds, both declare
    [name_cb] and [name_attributes]; declarations containing both
    expansions are rejected. *)
Theorem same_name_expansions_rejected
    (T : target) (E : env) (i j : invocation) :
  name_of i = name_of j ->
  In (name_of i ## "_cb") (shared i j) /\
  In (name_of i ## "_attributes") (shared i j) /\
  elaborate T E (expand i ++ expand j) = None.
Proof.
  intros Hn. split; [|split].
  - apply in_shared; [apply control_block_declared|].
    rewrite Hn. apply control_block_declared.
  - apply in_shared; [apply attributes_declared|].
    rewrite Hn. apply attributes_declared.
  - rewrite elaborate_app.
    destruct (elaborate T E (expand i)) as [E1|] eqn:Hi; [|reflexivity].
    cbn [obind]. apply (elaborate_redeclared T _ _ (name_of j ## "_cb")).
    + apply control_block_declared.
    + rewrite (elaborate_names T _ _ _ Hi). apply in_or_app. right.
      rewrite <- Hn. apply (control_block_declared i).
Qed.

Lemma same_name_mutex_and_semaphore :
  In "lock_cb" (shared (Imutex "lock") (Isemaphore "lock")) /\
  In "lock_attributes" (shared (Imutex "lock") (Isemaphore "lock")) /\
  elaborate port32 [] (expand (Imutex "lock") ++ expand (Isemaphore "lock")) = None.
Proof.
  apply (same_name_expansions_rejected port32 [] (Imutex "lock") (Isemaphore "lock")).
  reflexivity.
Defined.

(** ** Placement in a translation unit *)

(** X2: after any declarations that do not declare one of its names, a
    valid invocation generates the same objects as on its own, appended to
    those already present. *)
Theorem expansion_independent_of_context
    (T : target) (E0 : env) (i : invocation) :
  target_ok T (kind_of i) -> valid T i ->
  Forall (fresh_in E0) (declared i) ->
  exists E,
    generate T i = Some E /\
    elaborate T E0 (expand i) = Some (E0 ++ E)%list /\
    map fst E = declared i.
Proof.
  intros Hok Hv Hfresh.
  destruct (valid_generates T i Hok Hv) as [d Hd].
  unfold describe in Hd. destruct (generate T i) as [E|] eqn:Hg; [|discriminate Hd].
  exists E. split; [reflexivity|]. split.
  - rewrite (elaborate_in_context T E0 i Hfresh), Hg. reflexivity.
  - exact (generated_names T i E Hg).
Qed.

Lemma expansion_after_a_mutex :
  exists E,
    generate port32 (Itimer "tick") = Some E /\
    elaborate port32
      [("lock_cb", mkobject (Tnamed "StaticSemaphore_t") false 80 None)]
      (expand (Itimer "tick"))
    = Some ([("lock_cb", mkobject (Tnamed "StaticSemaphore_t") false 80 None)] ++ E)%list /\
    map fst E = declared (Itimer "tick").
Proof.
  apply (expansion_independent_of_context port32
           [("lock_cb", mkobject (Tnamed "StaticSemaphore_t") false 80 None)]
           (Itimer "tick")).
  - concrete_target.
  - concrete_valid.
  - repeat constructor.
Defined.

(** Witness of X3: a thread and a mutex of different names. *)
Lemma worker_and_lock_compose :
  exists Ei Ej,
    generate port32 (Ithread "worker" 256 24) = Some Ei /\
    generate port32 (Imutex "lock") = Some Ej /\
    elaborate port32 []
      (expand (Ithread "worker" 256 24) ++ expand (Imutex "lock"))
    = Some (Ei ++ Ej)%list.
Proof.
  eexists. eexists.
  assert (Hi : generate port32 (Ithread "worker" 256 24) = Some _)
    by (vm_compute; reflexivity).
  assert (Hj : generate port32 (Imutex "lock") = Some _)
    by (vm_compute; reflexivity).
  split; [exact Hi|]. split; [exact Hj|].
  apply (disjoint_expansions_compose port32
           (Ithread "worker" 256 24) (Imutex "lock") _ _).
  - vm_compute. reflexivity.
  - exact Hi.
  - exact Hj.
Defined.

(** ** Contents of the generated set *)

(** Brings a generated descriptor into the form its macro gives it. *)
Ltac generated_form T i d Hd :=
  let Hok := fresh "Hok" in
  let Hv := fresh "Hv" in
  destruct (generated_is_valid T i d Hd) as [Hok Hv];
  destruct i; simpl in Hok; revert Hd; generated Hok Hv;
  intros Hd; injection Hd as <-.

(** X6: the pointers of a generated record are the address of its control
    block followed, for the kinds that have one, by the address of its
    backing storage; the record points nowhere else. *)
Theorem record_points_into_its_own_set
    (T : target) (i : invocation) (d : descriptor) :
  describe T i = Some d ->
  pointers (d_members d)
  = (fst (d_control_block d)
     :: match d_storage d with
        | Some st => [fst st]
        | None => []
        end)%list
  /\ incl (pointers (d_members d)) (declared i)
  /\ ~ In (fst (d_attributes d)) (pointers (d_members d)).
Proof.
  intros Hd. generated_form T i d Hd;
    (split; [reflexivity|]); split;
    try (intros x Hx; cbn in Hx |- *; tauto);
    cbn; intros H;
    repeat match goal with
      | H : _ \/ _ |- _ => destruct H as [H | H]
      | H : False |- _ => destruct H
      | H : _ ## _ = _ ## _ |- _ =>
          unfold paste in H; apply append_cancel_l in H; discriminate H
      end.
Qed.

Lemma pointers_of_worker :
  pointers (d_members worker_descriptor)
  = (fst (d_control_block worker_descriptor)
     :: match d_storage worker_descriptor with
        | Some st => [fst st]
        | None => []
        end)%list
  /\ incl (pointers (d_members worker_descriptor))
       (declared (Ithread "worker" 256 24))
  /\ ~ In (fst (d_attributes worker_descriptor))
       (pointers (d_members worker_descriptor)).
Proof.
  apply (record_points_into_its_own_set port32 (Ithread "worker" 256 24)
           worker_descriptor).
  vm_compute. reflexivity.
Defined.

(** X7: of the objects an invocation generates, only the attributes record
    is constant and initialized; the control block and the backing storage
    are declared without [const] and without initializer. *)
Theorem only_the_record_is_constant
    (T : target) (i : invocation) (d : descriptor) :
  describe T i = Some d ->
  obj_const (snd (d_attributes d)) = true /\
  obj_init (snd (d_attributes d)) <> None /\
  obj_const (snd (d_control_block d)) = false /\
  obj_init (snd (d_control_block d)) = None /\
  match d_storage d with
  | Some st => obj_const (snd st) = false /\ obj_init (snd st) = None
  | None => True
  end.
Proof.
  intros Hd. generated_form T i d Hd;
    cbn; repeat split; discriminate.
Qed.

Lemma only_the_record_of_lock_is_constant :
  obj_const (snd (d_attributes lock_descriptor)) = true /\
  obj_init (snd (d_attributes lock_descriptor)) <> None /\
  obj_const (snd (d_control_block lock_descriptor)) = false /\
  obj_init (snd (d_control_block lock_descriptor)) = None /\
  match d_storage lock_descriptor with
  | Some st => obj_const (snd st) = false /\ obj_init (snd st) = None
  | None => True
  end.
Proof.
  apply (only_the_record_is_constant port32 (Imutex "lock") lock_descriptor).
  vm_compute. reflexivity.
Defined.

(** ** Sizes that are not accepted *)

(** X8: a thread whose stack would not fit in [size_t], or whose word count
    is negative, is not generated: the stack dimension is the word count
    itself, so nothing wraps. *)
Theorem oversized_stack_rejected (T : target) (n : string) (w p : Z) :
  w < 0 \/ size_max T < w * sizeof_name T "StackType_t" ->
  describe T (Ithread n w p) = None.
Proof.
  intros Hw. destruct (describe T (Ithread n w p)) as [d|] eqn:Hd; [|reflexivity].
  exfalso. destruct (generated_is_valid T _ d Hd) as [_ (_ & Hpos & Hsz)]. lia.
Qed.

Lemma oversized_stack_port32 :
  describe port32 (Ithread "worker" 1073741824 24) = None.
Proof.
  apply (oversized_stack_rejected port32 "worker" 1073741824 24).
  right. vm_compute. reflexivity.
Defined.

(** ** Inclusion of the header *)

Lemma define_once (m : string) (s : preprocessor) :
  pp_once (define m s) = pp_once s.
Proof. unfold define. destruct (defined s m); reflexivity. Qed.

Lemma define_warnings (m : string) (s : preprocessor) :
  pp_warnings (define m s) = pp_warnings s.
Proof. unfold define. destruct (defined s m); reflexivity. Qed.

Lemma define_defined (m x : string) (s : preprocessor) :
  defined (define m s) x = String.eqb x m || defined s x.
Proof.
  unfold define. destruct (defined s m) eqn:Hm.
  - destruct (String.eqb_spec x m) as [-> | _]; [|reflexivity].
    rewrite Hm. reflexivity.
  - reflexivity.
Qed.

Lemma define_all_once (ms : list string) (s : preprocessor) :
  pp_once (fold_left (fun acc m => define m acc) ms s) = pp_once s.
Proof.
  revert s. induction ms as [|m ms IH]; intros s; cbn [fold_left].
  - reflexivity.
  - rewrite IH. apply define_once.
Qed.

Lemma define_all_warnings (ms : list string) (s : preprocessor) :
  pp_warnings (fold_left (fun acc m => define m acc) ms s) = pp_warnings s.
Proof.
  revert s. induction ms as [|m ms IH]; intros s; cbn [fold_left].
  - reflexivity.
  - rewrite IH. apply define_warnings.
Qed.

Lemma define_all_defined (ms : list string) (s : preprocessor) (x : string) :
  defined (fold_left (fun acc m => define m acc) ms s) x = mem x ms || defined s x.
Proof.
  revert s. induction ms as [|m ms IH]; intros s; cbn [fold_left mem existsb].
  - reflexivity.
  - rewrite IH, define_defined.
    unfold mem. destruct (String.eqb x m), (existsb (String.eqb x) ms);
      reflexivity.
Qed.

Lemma include_header_once (s : preprocessor) :
  pp_once (include_header s) = true.
Proof.
  unfold include_header. destruct (pp_once s) eqn:Ho; [exact Ho|].
  destruct (defined (pragma_once s) _); [reflexivity|].
  rewrite define_all_once.
  destruct (defined _ "CMSIS_OS2_H_"); cbn [warning pp_once];
    rewrite define_once; reflexivity.
Qed.

(** X11: including the header again changes nothing: no macro is defined
    twice and the warning is not repeated. *)
Theorem include_header_idempotent (s : preprocessor) :
  include_header (include_header s) = include_header s.
Proof.
  unfold include_header at 1. rewrite include_header_once. reflexivity.
Qed.

(** X12: the first inclusion, in a unit that has not defined the guard
    macro, defines the six macros whether or not [cmsis_os2.h] was included
    before; it adds one warning exactly when [CMSIS_OS2_H_] is not
    defined. *)
Theorem include_header_defines_and_warns (s : preprocessor) :
  pp_once s = false ->
  defined s "CMSISV2_RTOS_STATIC_ALLOC_H_" = false ->
  forallb (defined (include_header s)) header_macros = true /\
  defined (include_header s) "CMSISV2_RTOS_STATIC_ALLOC_H_" = true /\
  pp_warnings (include_header s)
  = if defined s "CMSIS_OS2_H_" then pp_warnings s
    else (pp_warnings s ++ ["cmsis_os2.h must be included before this file"])%list.
Proof.
  intros Ho Hg. unfold include_header. rewrite Ho.
  change (defined (pragma_once s) "CMSISV2_RTOS_STATIC_ALLOC_H_")
    with (defined s "CMSISV2_RTOS_STATIC_ALLOC_H_").
  rewrite Hg. split; [|split].
  - cbn [forallb header_macros]. rewrite !define_all_defined. reflexivity.
  - rewrite define_all_defined, orb_true_iff. right.
    destruct (defined _ "CMSIS_OS2_H_");
      unfold warning, defined; cbn [pp_macros];
      fold (defined (define "CMSISV2_RTOS_STATIC_ALLOC_H_" (pragma_once s))
              "CMSISV2_RTOS_STATIC_ALLOC_H_");
      rewrite define_defined; reflexivity.
  - rewrite define_all_warnings, define_defined.
    change (defined (pragma_once s) "CMSIS_OS2_H_") with (defined s "CMSIS_OS2_H_").
    cbn [String.eqb Ascii.eqb Bool.eqb orb].
    destruct (defined s "CMSIS_OS2_H_"); cbn [warning pp_warnings];
      rewrite define_warnings; reflexivity.
Qed.

Lemma include_header_without_cmsis :
  forallb (defined (include_header (mkpreprocessor [] false []))) header_macros = true /\
  defined (include_header (mkpreprocessor [] false []))
    "CMSISV2_RTOS_STATIC_ALLOC_H_" = true /\
  pp_warnings (include_header (mkpreprocessor [] false []))
  = ["cmsis_os2.h must be included before this file"].
Proof.
  apply (include_header_defines_and_warns (mkpreprocessor [] false [])).
  - reflexivity.
  - reflexivity.
Defined.
